(** * Souffle ast2ram: the provenance translation strategy

    Shallow embedding of [src/ast2ram/provenance/TranslationStrategy.cpp].

    The file defines one class, [souffle::ast2ram::provenance::TranslationStrategy],
    whose four [const] member functions each build one translator object with
    [mk<T>(args...)] (Souffle's [std::make_unique]) and hand the owning pointer
    back to the caller.  The objects hold C++ references to a translator context,
    a symbol table and a value index, so the embedding is an object store with
    explicit addresses: references are addresses, [mk] allocates at an unused
    address, and a member function is a state transformer on the store. *)

From stdpp Require Import base gmap sets list strings.

(** ** Addresses and class namespaces *)

(** An address of the store.  [nullptr] is address 0 and is never allocated. *)
Abbreviation loc := N (only parsing).

Definition nullptr : loc := 0%N.

(** The two namespaces the translator classes live in: [Plain] stands for
    [souffle::ast2ram::seminaive] and [Provenance] for
    [souffle::ast2ram::provenance]. *)
Inductive Mode : Set :=
| Plain
| Provenance.

#[global] Instance Mode_eq_dec : EqDecision Mode.
Proof. solve_decision. Defined.

(** ** Objects *)

Section Objects.

(** The contents of the three collaborating classes are declared in headers
    that this translation unit only includes; the factory never inspects
    them, so they are parameters. *)
Variables TranslatorContext SymbolTable ValueIndex : Type.

(** Modelled from the spec: the constructors of the translator classes are
    declared in the included headers, not in this file.  Following the
    component descriptions, a translator object records the class it was
    built as and the references it was built with, and construction touches
    nothing else.  The class of a translator is its namespace ([Mode])
    together with its role (the constructor below). *)
Inductive Object : Type :=
| ObjTranslationStrategy (m : Mode)
| ObjTranslatorContext (c : TranslatorContext)
| ObjSymbolTable (s : SymbolTable)
| ObjValueIndex (v : ValueIndex)
| ObjUnitTranslator (m : Mode)
| ObjClauseTranslator (m : Mode) (context symbolTable : loc)
| ObjConstraintTranslator (m : Mode) (context symbolTable index : loc)
| ObjValueTranslator (m : Mode) (context symbolTable index : loc).

(** The namespace of the concrete class of a translator object. *)
Definition mode_of (o : Object) : option Mode :=
  match o with
  | ObjUnitTranslator m => Some m
  | ObjClauseTranslator m _ _ => Some m
  | ObjConstraintTranslator m _ _ _ => Some m
  | ObjValueTranslator m _ _ _ => Some m
  | _ => None
  end.

(** The value index a constraint or value translator was built with. *)
Definition index_of (o : Object) : option loc :=
  match o with
  | ObjConstraintTranslator _ _ _ index => Some index
  | ObjValueTranslator _ _ _ index => Some index
  | _ => None
  end.

(** [mk<T>(args...)]: allocate the object at an address that is neither
    null nor in use, and return the owning pointer. *)
Definition mk (o : Object) (h : gmap loc Object) : loc * gmap loc Object :=
  let p := fresh ({[nullptr]} ∪ dom h) in (p, <[p := o]> h).

(** The namespace of the class of the object a call has just returned. *)
Definition result_mode (r : loc * gmap loc Object) : option Mode :=
  r.2 !! r.1 ≫= mode_of.

(** The value index reached through the translator a call has just returned:
    follow the translator's [index] reference in the resulting store. *)
Definition result_index (r : loc * gmap loc Object) : option Object :=
  match r.2 !! r.1 ≫= index_of with
  | Some i => r.2 !! i
  | None => None
  end.

End Objects.

Arguments ObjTranslationStrategy {_ _ _} m.
Arguments ObjTranslatorContext {_ _ _} c.
Arguments ObjSymbolTable {_ _ _} s.
Arguments ObjValueIndex {_ _ _} v.
Arguments ObjUnitTranslator {_ _ _} m.
Arguments ObjClauseTranslator {_ _ _} m context symbolTable.
Arguments ObjConstraintTranslator {_ _ _} m context symbolTable index.
Arguments ObjValueTranslator {_ _ _} m context symbolTable index.
Arguments mode_of {_ _ _} o.
Arguments index_of {_ _ _} o.
Arguments mk {_ _ _} o h : simpl never.
Arguments result_mode {_ _ _} r.
Arguments result_index {_ _ _} r.

(** ** namespace souffle::ast2ram::provenance *)

Module provenance.
Section TranslationStrategy.
Context {TranslatorContext SymbolTable ValueIndex : Type}.
Local Abbreviation heap := (gmap loc (Object TranslatorContext SymbolTable ValueIndex)).

(** [TranslationStrategy::TranslationStrategy() = default], run on newly
    obtained storage: nothing is initialised beyond the object itself. *)
Definition TranslationStrategy : heap -> loc * heap :=
  mk (ObjTranslationStrategy Provenance).

(** The four member functions are [const]; [this] is their receiver. *)
Definition createUnitTranslator (this : loc) : heap -> loc * heap :=
  mk (ObjUnitTranslator Provenance).

Definition createClauseTranslator (this : loc) (context symbolTable : loc)
  : heap -> loc * heap :=
  mk (ObjClauseTranslator Provenance context symbolTable).

Definition createConstraintTranslator (this : loc)
  (context symbolTable index : loc) : heap -> loc * heap :=
  mk (ObjConstraintTranslator Plain context symbolTable index).

Definition createValueTranslator (this : loc)
  (context symbolTable index : loc) : heap -> loc * heap :=
  mk (ObjValueTranslator Plain context symbolTable index).

(** [TranslationStrategy::~TranslationStrategy() = default], followed by the
    release of the object's storage: the class holds no pointer to anything
    it built, so the object itself is all that goes. *)
Definition TranslationStrategy_dtor (this : loc) (h : heap) : heap :=
  delete this h.

End TranslationStrategy.
End provenance.

(** ** namespace souffle::ast2ram::seminaive *)

Module seminaive.
Section TranslationStrategy.
Context {TranslatorContext SymbolTable ValueIndex : Type}.
Local Abbreviation heap := (gmap loc (Object TranslatorContext SymbolTable ValueIndex)).

(** Modelled from the spec: the Plain strategy's factory
    ([seminaive/TranslationStrategy.cpp]) is not among the sources.  By the
    contract of the translation strategy, a strategy produces the constraint
    translator of its own mode, bound to the context, symbol table and value
    index it is given. *)
Definition createConstraintTranslator (this : loc)
  (context symbolTable index : loc) : heap -> loc * heap :=
  mk (ObjConstraintTranslator Plain context symbolTable index).

End TranslationStrategy.
End seminaive.

(** ** Constraint lowering through a translator object *)

Section Lowering.
Context {TranslatorContext SymbolTable ValueIndex : Type}.
Local Abbreviation heap := (gmap loc (Object TranslatorContext SymbolTable ValueIndex)).

(** The body of the constraint translator classes is not among the sources:
    [lower m] is the lowering implemented by the constraint translator class
    of namespace [m].  It reads the context and the value index and may
    intern strings in the symbol table, which is passed by mutable
    reference. *)
Variables Constraint Condition : Type.
Variable lower :
  Mode -> TranslatorContext -> SymbolTable -> ValueIndex ->
  Constraint -> Condition * SymbolTable.

(** Modelled from the spec: lowering one constraint through a constraint
    translator object (a virtual call): dispatch on the class of the object
    at [t], read the three objects it refers to, and store the symbol table
    back.  [None] when [t] or one of its references is dangling. *)
Definition translateConstraint (t : loc) (c : Constraint) (h : heap)
  : option (Condition * heap) :=
  match h !! t with
  | Some (ObjConstraintTranslator m context symbolTable index) =>
      match h !! context, h !! symbolTable, h !! index with
      | Some (ObjTranslatorContext ctx), Some (ObjSymbolTable syms),
        Some (ObjValueIndex idx) =>
          let r := lower m ctx syms idx c in
          Some (r.1, <[symbolTable := ObjSymbolTable r.2]> h)
      | _, _, _ => None
      end
  | _ => None
  end.

End Lowering.

(** ** Sequences of factory calls *)

(** One call of a factory operation, with its arguments. *)
Inductive Call : Set :=
| CreateUnitTranslator
| CreateClauseTranslator (context symbolTable : loc)
| CreateConstraintTranslator (context symbolTable index : loc)
| CreateValueTranslator (context symbolTable index : loc).

(** The namespace each operation draws its class from, as read off the four
    [mk<...>] expressions of the source. *)
Definition produced_mode (c : Call) : Mode :=
  match c with
  | CreateUnitTranslator => Provenance
  | CreateClauseTranslator _ _ => Provenance
  | CreateConstraintTranslator _ _ _ => Plain
  | CreateValueTranslator _ _ _ => Plain
  end.

Section Calls.
Context {TranslatorContext SymbolTable ValueIndex : Type}.
Local Abbreviation heap := (gmap loc (Object TranslatorContext SymbolTable ValueIndex)).

(** Perform one call on the provenance strategy object [this]. *)
Definition invoke (this : loc) (c : Call) : heap -> loc * heap :=
  match c with
  | CreateUnitTranslator => provenance.createUnitTranslator this
  | CreateClauseTranslator context symbolTable =>
      provenance.createClauseTranslator this context symbolTable
  | CreateConstraintTranslator context symbolTable index =>
      provenance.createConstraintTranslator this context symbolTable index
  | CreateValueTranslator context symbolTable index =>
      provenance.createValueTranslator this context symbolTable index
  end.

(** Perform the calls one after the other; the caller keeps every translator
    it receives.  Returns the pointers in call order and the final store. *)
Fixpoint invoke_all (this : loc) (cs : list Call) (h : heap)
  : list loc * heap :=
  match cs with
  | [] => ([], h)
  | c :: cs' =>
      let r := invoke this c h in
      let rs := invoke_all this cs' r.2 in
      (r.1 :: rs.1, rs.2)
  end.

End Calls.

(** ** References held by translators *)

Section References.
Context {TranslatorContext SymbolTable ValueIndex : Type}.
Local Abbreviation obj := (Object TranslatorContext SymbolTable ValueIndex).
Local Abbreviation heap := (gmap loc obj).

(** The symbol table a clause, constraint or value translator was built
    with. *)
Definition symbolTable_of (o : obj) : option loc :=
  match o with
  | ObjClauseTranslator _ _ symbolTable => Some symbolTable
  | ObjConstraintTranslator _ _ symbolTable _ => Some symbolTable
  | ObjValueTranslator _ _ symbolTable _ => Some symbolTable
  | _ => None
  end.

(** The symbol table object translator [t] reads in store [h]. *)
Definition read_symbolTable (h : heap) (t : loc) : option obj :=
  match h !! t ≫= symbolTable_of with
  | Some s => h !! s
  | None => None
  end.

(** The parameter types of the factory operations:
    [const TranslatorContext&], [SymbolTable&] and [const ValueIndex&].  A
    reference of such a type designates a live object of that class. *)
Definition is_TranslatorContext (h : heap) (l : loc) : bool :=
  match h !! l with Some (ObjTranslatorContext _) => true | _ => false end.

Definition is_SymbolTable (h : heap) (l : loc) : bool :=
  match h !! l with Some (ObjSymbolTable _) => true | _ => false end.

Definition is_ValueIndex (h : heap) (l : loc) : bool :=
  match h !! l with Some (ObjValueIndex _) => true | _ => false end.

(** The arguments of a call are references of the declared types. *)
Definition args_ok (h : heap) (c : Call) : bool :=
  match c with
  | CreateUnitTranslator => true
  | CreateClauseTranslator context symbolTable =>
      is_TranslatorContext h context && is_SymbolTable h symbolTable
  | CreateConstraintTranslator context symbolTable index
  | CreateValueTranslator context symbolTable index =>
      is_TranslatorContext h context && is_SymbolTable h symbolTable
      && is_ValueIndex h index
  end.

(** The references an object holds designate live objects of the classes
    its constructor asked for. *)
Definition refs_ok (h : heap) (o : obj) : bool :=
  match o with
  | ObjClauseTranslator _ context symbolTable =>
      is_TranslatorContext h context && is_SymbolTable h symbolTable
  | ObjConstraintTranslator _ context symbolTable index
  | ObjValueTranslator _ context symbolTable index =>
      is_TranslatorContext h context && is_SymbolTable h symbolTable
      && is_ValueIndex h index
  | _ => true
  end.

(** No object of the store holds a dangling or ill-typed reference. *)
Definition store_ok (h : heap) : bool :=
  forallb (λ lo, refs_ok h lo.2) (map_to_list h).

End References.

(** ** A concrete store *)

Module Sample.

(** Relation arities, interned strings, and variable locations
    (atom, column), for [path(x,y) :- edge(x,y).] *)
Abbreviation Ctx := (list (string * nat)) (only parsing).
Abbreviation Sym := (list string) (only parsing).
Abbreviation Idx := (list (string * (nat * nat))) (only parsing).

Definition strategy : loc := 1%N.
Definition context : loc := 2%N.
Definition symbolTable : loc := 3%N.
Definition index : loc := 4%N.

Definition the_context : Object Ctx Sym Idx :=
  ObjTranslatorContext [("edge", 2); ("path", 2)]%string.

Definition the_symbolTable : Object Ctx Sym Idx :=
  ObjSymbolTable ["a"; "b"]%string.

Definition the_index : Object Ctx Sym Idx :=
  ObjValueIndex [("x", (0, 0)); ("y", (0, 1))]%string.

Definition store : gmap loc (Object Ctx Sym Idx) :=
  <[index := the_index]>
    (<[symbolTable := the_symbolTable]>
      (<[context := the_context]>
        (<[strategy := ObjTranslationStrategy Provenance]> ∅))).

(** A toy lowering of the constraint [x = y] between two variables: the
    pair of their locations. *)
Definition lookup_var (idx : Idx) (x : string) : option (nat * nat) :=
  snd <$> List.find (fun b => String.eqb (fst b) x) idx.

Definition lower (m : Mode) (ctx : Ctx) (syms : Sym) (idx : Idx)
  (c : string * string) : (option (nat * nat) * option (nat * nat)) * Sym :=
  ((lookup_var idx c.1, lookup_var idx c.2), syms).

(** A clause translator, then a constraint translator. *)
Definition two_calls : list Call :=
  [CreateClauseTranslator context symbolTable;
   CreateConstraintTranslator context symbolTable index].

End Sample.

(** * Properties *)

(** ** Allocation *)

Section Allocation.
Context {TranslatorContext SymbolTable ValueIndex : Type}.
Local Abbreviation obj := (Object TranslatorContext SymbolTable ValueIndex).
Local Abbreviation heap := (gmap loc obj).

Lemma mk_nonnull (o : obj) (h : heap) : (mk o h).1 ≠ nullptr.
Proof.
  pose proof (is_fresh ({[nullptr]} ∪ dom h)) as Hf.
  unfold mk; cbn. set_solver.
Qed.

Lemma mk_fresh (o : obj) (h : heap) : h !! (mk o h).1 = None.
Proof.
  pose proof (is_fresh ({[nullptr]} ∪ dom h)) as Hf.
  apply not_elem_of_dom. unfold mk; cbn. set_solver.
Qed.

Lemma mk_lookup (o : obj) (h : heap) : (mk o h).2 !! (mk o h).1 = Some o.
Proof. unfold mk; cbn. apply lookup_insert_eq. Qed.

Lemma mk_other (o : obj) (h : heap) (l : loc) :
  l ≠ (mk o h).1 → (mk o h).2 !! l = h !! l.
Proof. intros Hl. unfold mk in *; cbn in *. by apply lookup_insert_ne. Qed.

Lemma mk_subseteq (o : obj) (h : heap) : h ⊆ (mk o h).2.
Proof. pose proof (mk_fresh o h) as Hf. unfold mk in *; cbn in *. by apply insert_subseteq. Qed.

Lemma mk_live (o : obj) (h : heap) (l : loc) :
  is_Some (h !! l) → (mk o h).2 !! l = h !! l.
Proof.
  intros [x Hx]. apply mk_other. intros ->.
  rewrite mk_fresh in Hx. discriminate.
Qed.

Lemma mk_dom (o : obj) (h : heap) : dom (mk o h).2 = {[(mk o h).1]} ∪ dom h.
Proof. unfold mk; cbn. apply dom_insert_L. Qed.

(** Every call is one allocation, of an object fixed by the call alone. *)
Lemma invoke_mk (this : loc) (c : Call) :
  ∃ o : obj, mode_of o = Some (produced_mode c) ∧ ∀ h, invoke this c h = mk o h.
Proof. destruct c; eexists; (split; [|reflexivity]); reflexivity. Qed.

Lemma invoke_all_subseteq (this : loc) (cs : list Call) (h : heap) :
  h ⊆ (invoke_all this cs h).2.
Proof.
  revert h. induction cs as [|c cs IH]; intros h; [done|].
  cbn. etrans; [|apply IH].
  destruct (invoke_mk this c) as (o & _ & ->). apply mk_subseteq.
Qed.

Lemma invoke_all_fresh (this : loc) (cs : list Call) (h : heap) :
  Forall (λ t, t ≠ nullptr ∧ h !! t = None) (invoke_all this cs h).1.
Proof.
  revert h. induction cs as [|c cs IH]; intros h; cbn; [constructor|].
  destruct (invoke_mk this c) as (o & _ & Ho). rewrite !Ho.
  constructor.
  - split; [apply mk_nonnull | apply mk_fresh].
  - eapply Forall_impl; [apply IH|]. cbn. intros t [Hn Ht]. split; [done|].
    destruct (h !! t) as [x|] eqn:Hx; [|done].
    pose proof (lookup_weaken _ _ _ _ Hx (mk_subseteq o h)) as Hw.
    congruence.
Qed.

End Allocation.

(** ** The factory operations *)

Section Factory.
Context {TranslatorContext SymbolTable ValueIndex : Type}.
Local Abbreviation obj := (Object TranslatorContext SymbolTable ValueIndex).
Local Abbreviation heap := (gmap loc obj).

(** C1 (amended): the class the provenance strategy builds is fixed per
    operation, whatever the arguments and the store: createUnitTranslator
    builds the UnitTranslator and createClauseTranslator the
    ClauseTranslator of the provenance namespace, while
    createConstraintTranslator builds the ConstraintTranslator and
    createValueTranslator the ValueTranslator of the seminaive (Plain)
    namespace, which the provenance set reuses; each is built with the
    arguments of the call. *)
Theorem C1_factory_classes (this context symbolTable index : loc) (h : heap) :
  let ru := provenance.createUnitTranslator this h in
  let rc := provenance.createClauseTranslator this context symbolTable h in
  let rk :=
    provenance.createConstraintTranslator this context symbolTable index h in
  let rv :=
    provenance.createValueTranslator this context symbolTable index h in
  (ru.2 !! ru.1 = Some (ObjUnitTranslator Provenance) ∧
   rc.2 !! rc.1 = Some (ObjClauseTranslator Provenance context symbolTable) ∧
   rk.2 !! rk.1
     = Some (ObjConstraintTranslator Plain context symbolTable index) ∧
   rv.2 !! rv.1 = Some (ObjValueTranslator Plain context symbolTable index)) ∧
  (result_mode ru = Some Provenance ∧
   result_mode rc = Some Provenance ∧
   result_mode rk = Some Plain ∧
   result_mode rv = Some Plain).
Proof.
  intros ru rc rk rv. subst ru rc rk rv.
  unfold result_mode, provenance.createUnitTranslator,
    provenance.createClauseTranslator, provenance.createConstraintTranslator,
    provenance.createValueTranslator.
  rewrite !mk_lookup. repeat split.
Qed.

(** C3: createUnitTranslator takes the receiver only and is a total
    function; the pointer it returns is not null, was not in use before the
    call (so the caller is its only owner), and points to a unit translator
    of the provenance namespace. *)
Theorem C3_createUnitTranslator_total (this : loc) (h : heap) :
  let r := provenance.createUnitTranslator this h in
  r.1 ≠ nullptr ∧
  h !! r.1 = None ∧
  r.2 !! r.1 = Some (ObjUnitTranslator Provenance) ∧
  result_mode r = Some Provenance.
Proof.
  intros r. subst r. unfold result_mode, provenance.createUnitTranslator.
  rewrite mk_lookup.
  split; [apply mk_nonnull|]. split; [apply mk_fresh|]. done.
Qed.

(** C4: createClauseTranslator is total; for every context and symbol table
    reference it returns a non-null, previously unused pointer to a clause
    translator of the provenance namespace whose two references are exactly
    the ones passed in, and everything that was in the store (the context
    and the symbol table among it) is still there, unchanged, to be read
    through them. *)
Theorem C4_createClauseTranslator_bound
  (this context symbolTable : loc) (h : heap) :
  let r := provenance.createClauseTranslator this context symbolTable h in
  r.1 ≠ nullptr ∧
  h !! r.1 = None ∧
  r.2 !! r.1 = Some (ObjClauseTranslator Provenance context symbolTable) ∧
  result_mode r = Some Provenance ∧
  h ⊆ r.2.
Proof.
  intros r. subst r. unfold result_mode, provenance.createClauseTranslator.
  rewrite mk_lookup.
  split; [apply mk_nonnull|]. split; [apply mk_fresh|].
  split; [done|]. split; [done|]. apply mk_subseteq.
Qed.

(** C5: createConstraintTranslator and createValueTranslator are total; for
    every context, symbol table and value index they return non-null
    pointers to translators whose index reference is exactly the one passed
    in, so the value index reached through the returned translator is the
    object the caller passed. *)
Theorem C5_translators_bound_to_index
  (this context symbolTable index : loc) (h : heap) (idx : ValueIndex)
  (Hindex : h !! index = Some (ObjValueIndex idx)) :
  let rc :=
    provenance.createConstraintTranslator this context symbolTable index h in
  let rv :=
    provenance.createValueTranslator this context symbolTable index h in
  (rc.1 ≠ nullptr ∧ rv.1 ≠ nullptr) ∧
  (rc.2 !! rc.1 ≫= index_of = Some index ∧
   rv.2 !! rv.1 ≫= index_of = Some index) ∧
  (result_index rc = Some (ObjValueIndex idx) ∧
   result_index rv = Some (ObjValueIndex idx)).
Proof.
  intros rc rv. subst rc rv.
  unfold result_index, provenance.createConstraintTranslator,
    provenance.createValueTranslator.
  rewrite !mk_lookup. cbn.
  rewrite !mk_live by (rewrite Hindex; eauto).
  repeat split; try apply mk_nonnull; done.
Qed.

(** C6: a call of any of the four operations only allocates: every object
    that was in the store before the call (the strategy object, the
    context, the symbol table and the value index among them) is unchanged
    after it, and the one new address is the returned translator. *)
Theorem C6_factory_frame
  (this : loc) (call : Call) (h : heap) (l : loc) (o : obj)
  (Hlive : h !! l = Some o) :
  let r := invoke this call h in
  r.2 !! l = Some o ∧ dom r.2 = {[r.1]} ∪ dom h.
Proof.
  intros r. subst r. destruct (@invoke_mk TranslatorContext SymbolTable ValueIndex this call) as (o' & _ & ->).
  split; [|apply mk_dom].
  rewrite mk_live; [done|]. rewrite Hlive; eauto.
Qed.

(** C7: the translator an operation builds is determined by the operation
    and its arguments alone: two invocations of the same call on the same
    strategy, from whatever stores (in particular one after the other),
    build structurally identical objects. *)
Theorem C7_factory_deterministic
  (this : loc) (call : Call) (h1 h2 : heap) :
  let r1 := invoke this call h1 in
  let r2 := invoke this call h2 in
  let r3 := invoke this call r1.2 in
  is_Some (r1.2 !! r1.1) ∧
  r1.2 !! r1.1 = r2.2 !! r2.1 ∧
  r1.2 !! r1.1 = r3.2 !! r3.1.
Proof.
  intros r1 r2 r3. subst r1 r2 r3.
  destruct (@invoke_mk TranslatorContext SymbolTable ValueIndex this call) as (o & _ & Ho).
  rewrite !Ho, !mk_lookup. eauto.
Qed.

End Factory.

(** ** Sequences of calls and strategy instances *)

Section Sequences.
Context {TranslatorContext SymbolTable ValueIndex : Type}.
Local Abbreviation obj := (Object TranslatorContext SymbolTable ValueIndex).
Local Abbreviation heap := (gmap loc obj).

(** C8 (amended): the strategy object is never written: after any sequence
    of create calls it is the same provenance strategy object; and the
    namespace of the translator each call of the sequence yields depends on
    the operation alone, not on the calls made before it: provenance for the
    unit and clause translators, seminaive (Plain) for the constraint and
    value translators. *)
Theorem C8_mode_by_operation (this : loc) (cs : list Call) (h : heap)
  (Hthis : h !! this = Some (ObjTranslationStrategy Provenance)) :
  let r := invoke_all this cs h in
  r.2 !! this = Some (ObjTranslationStrategy Provenance) ∧
  Forall2 (λ c t, r.2 !! t ≫= mode_of = Some (produced_mode c)) cs r.1.
Proof.
  intros r. subst r. split.
  { eapply lookup_weaken; [exact Hthis | apply invoke_all_subseteq]. }
  clear Hthis. revert h.
  induction cs as [|c cs IH]; intros h; cbn; constructor; [|apply IH].
  destruct (@invoke_mk TranslatorContext SymbolTable ValueIndex this c)
    as (o & Hm & Ho).
  rewrite Ho.
  erewrite lookup_weaken;
    [| apply (mk_lookup o h) | apply invoke_all_subseteq].
  exact Hm.
Qed.

(** C9: any sequence of create calls returns one pointer per call; the
    pointers are pairwise distinct, none is null, none was in use before the
    sequence started, and at the end each still points to a translator of
    its own, the one built by its call from that call's arguments. *)
Theorem C9_translators_distinct (this : loc) (cs : list Call) (h : heap) :
  let r := invoke_all this cs h in
  (length r.1 = length cs ∧
   Forall2
     (λ c t,
        r.2 !! t =
        Some
          match c with
          | CreateUnitTranslator => ObjUnitTranslator Provenance
          | CreateClauseTranslator context symbolTable =>
              ObjClauseTranslator Provenance context symbolTable
          | CreateConstraintTranslator context symbolTable index =>
              ObjConstraintTranslator Plain context symbolTable index
          | CreateValueTranslator context symbolTable index =>
              ObjValueTranslator Plain context symbolTable index
          end)
     cs r.1) ∧
  NoDup r.1 ∧
  Forall (λ t, t ≠ nullptr ∧ h !! t = None) r.1 ∧
  Forall (λ t, is_Some (r.2 !! t ≫= mode_of)) r.1.
Proof.
  intros r. subst r.
  assert (Hpointwise : Forall2
     (λ c t,
        (invoke_all this cs h).2 !! t =
        Some
          match c with
          | CreateUnitTranslator => ObjUnitTranslator Provenance
          | CreateClauseTranslator context symbolTable =>
              ObjClauseTranslator Provenance context symbolTable
          | CreateConstraintTranslator context symbolTable index =>
              ObjConstraintTranslator Plain context symbolTable index
          | CreateValueTranslator context symbolTable index =>
              ObjValueTranslator Plain context symbolTable index
          end)
     cs (invoke_all this cs h).1).
  { revert h. induction cs as [|c cs IH]; intros h; cbn; constructor;
      [|apply IH].
    eapply lookup_weaken; [|apply invoke_all_subseteq].
    destruct c; apply mk_lookup. }
  split.
  { split; [symmetry; eapply Forall2_length, Hpointwise | exact Hpointwise]. }
  split; [|split; [apply invoke_all_fresh|]].
  - clear Hpointwise.
    revert h. induction cs as [|c cs IH]; intros h; cbn; constructor;
      [|apply IH].
    destruct (@invoke_mk TranslatorContext SymbolTable ValueIndex this c)
      as (o & _ & Ho).
    rewrite !Ho. intros Hin.
    pose proof (invoke_all_fresh this cs (mk o h).2) as Hf.
    rewrite Forall_forall in Hf. destruct (Hf _ Hin) as [_ Hnone].
    rewrite mk_lookup in Hnone. discriminate.
  - clear Hpointwise.
    revert h. induction cs as [|c cs IH]; intros h; cbn; constructor;
      [|apply IH].
    destruct (@invoke_mk TranslatorContext SymbolTable ValueIndex this c)
      as (o & Hm & Ho).
    rewrite Ho.
    erewrite lookup_weaken;
      [| apply (mk_lookup o h) | apply invoke_all_subseteq].
    cbn. rewrite Hm. eauto.
Qed.

(** C10: the receiver plays no part in what a call builds.  A
    default-constructed provenance strategy is the same field-less object
    wherever it is built, and the same call on two instances returns the
    same pointer and store, and builds equal objects even from different
    stores. *)
Theorem C10_instances_interchangeable
  (this1 this2 : loc) (call : Call) (h h1 h2 : heap) :
  let s1 := provenance.TranslationStrategy h1 in
  let s2 := provenance.TranslationStrategy h2 in
  let r1 := invoke this1 call h1 in
  let r2 := invoke this2 call h2 in
  s1.2 !! s1.1 = Some (ObjTranslationStrategy Provenance) ∧
  s1.2 !! s1.1 = s2.2 !! s2.1 ∧
  invoke this1 call h = invoke this2 call h ∧
  r1.2 !! r1.1 = r2.2 !! r2.1.
Proof.
  intros s1 s2 r1 r2. subst s1 s2 r1 r2.
  unfold provenance.TranslationStrategy. rewrite !mk_lookup.
  split; [done|]. split; [done|].
  destruct call; cbn;
    unfold provenance.createUnitTranslator, provenance.createClauseTranslator,
      provenance.createConstraintTranslator, provenance.createValueTranslator;
    rewrite !mk_lookup; done.
Qed.

End Sequences.

(** ** Constraint lowering *)

Section ConstraintLowering.
Context {TranslatorContext SymbolTable ValueIndex : Type}.
Local Abbreviation obj := (Object TranslatorContext SymbolTable ValueIndex).
Local Abbreviation heap := (gmap loc obj).
Context {Constraint Condition : Type}.
Variable lower :
  Mode -> TranslatorContext -> SymbolTable -> ValueIndex ->
  Constraint -> Condition * SymbolTable.

(** C2: given a context, a symbol table and a value index with the same
    contents, lowering a constraint through the constraint translator of the
    provenance strategy and through the one of the Plain strategy both
    succeed and give the same condition, the one the seminaive constraint
    translator class computes, and leave the same symbol table behind. *)
Theorem C2_constraint_lowering_same
  (thisP contextP symbolTableP indexP : loc) (hP : heap)
  (thisS contextS symbolTableS indexS : loc) (hS : heap)
  (c : Constraint)
  (ctx : TranslatorContext) (syms : SymbolTable) (idx : ValueIndex)
  (HcontextP : hP !! contextP = Some (ObjTranslatorContext ctx))
  (HsymbolTableP : hP !! symbolTableP = Some (ObjSymbolTable syms))
  (HindexP : hP !! indexP = Some (ObjValueIndex idx))
  (HcontextS : hS !! contextS = Some (ObjTranslatorContext ctx))
  (HsymbolTableS : hS !! symbolTableS = Some (ObjSymbolTable syms))
  (HindexS : hS !! indexS = Some (ObjValueIndex idx)) :
  let rp :=
    provenance.createConstraintTranslator
      thisP contextP symbolTableP indexP hP in
  let rs :=
    seminaive.createConstraintTranslator
      thisS contextS symbolTableS indexS hS in
  let out := lower Plain ctx syms idx c in
  fst <$> translateConstraint _ _ lower rp.1 c rp.2
    = fst <$> translateConstraint _ _ lower rs.1 c rs.2 ∧
  translateConstraint _ _ lower rp.1 c rp.2
    = Some (out.1, <[symbolTableP := ObjSymbolTable out.2]> rp.2) ∧
  translateConstraint _ _ lower rs.1 c rs.2
    = Some (out.1, <[symbolTableS := ObjSymbolTable out.2]> rs.2).
Proof.
  intros rp rs out.
  assert (HP : translateConstraint _ _ lower rp.1 c rp.2
    = Some (out.1, <[symbolTableP := ObjSymbolTable out.2]> rp.2)).
  { subst rp out.
    unfold translateConstraint, provenance.createConstraintTranslator.
    rewrite mk_lookup.
    rewrite !mk_live by (rewrite ?HcontextP, ?HsymbolTableP, ?HindexP; eauto).
    rewrite HcontextP, HsymbolTableP, HindexP. reflexivity. }
  assert (HS : translateConstraint _ _ lower rs.1 c rs.2
    = Some (out.1, <[symbolTableS := ObjSymbolTable out.2]> rs.2)).
  { subst rs out.
    unfold translateConstraint, seminaive.createConstraintTranslator.
    rewrite mk_lookup.
    rewrite !mk_live by (rewrite ?HcontextS, ?HsymbolTableS, ?HindexS; eauto).
    rewrite HcontextS, HsymbolTableS, HindexS. reflexivity. }
  rewrite HP, HS. done.
Qed.

End ConstraintLowering.

(** ** The properties on the sample store *)

Section OnSample.
Import Sample.

(** The first unused address of the sample store is 5. *)
Example createUnitTranslator_sample :
  (provenance.createUnitTranslator strategy store).1 = 5%N ∧
  (provenance.createUnitTranslator strategy store).2 !! 5%N
    = Some (ObjUnitTranslator Provenance).
Proof. split; reflexivity. Qed.

Example createValueTranslator_sample :
  (provenance.createValueTranslator strategy context symbolTable index store).2
    !! 5%N
  = Some (ObjValueTranslator Plain 2%N 3%N 4%N).
Proof. reflexivity. Qed.

Example two_calls_pointers :
  (invoke_all strategy two_calls store).1 = [5%N; 6%N].
Proof. vm_compute. reflexivity. Qed.

Example translateConstraint_sample :
  fst <$> translateConstraint _ _ lower 5%N ("x", "y")%string
    (provenance.createConstraintTranslator
       strategy context symbolTable index store).2
  = Some (Some (0, 0), Some (0, 1)).
Proof. vm_compute. reflexivity. Qed.

(** C1, as stated, fails on the sample store: the constraint translator the
    provenance strategy returns is not a class of the provenance
    namespace. *)
Lemma C1_not_all_provenance :
  ¬ (result_mode (provenance.createUnitTranslator strategy store)
       = Some Provenance ∧
     result_mode
       (provenance.createClauseTranslator strategy context symbolTable store)
       = Some Provenance ∧
     result_mode
       (provenance.createConstraintTranslator
          strategy context symbolTable index store)
       = Some Provenance ∧
     result_mode
       (provenance.createValueTranslator
          strategy context symbolTable index store)
       = Some Provenance).
Proof. intros (_ & _ & H & _). vm_compute in H. discriminate. Qed.

(** C8, as stated, fails on the sample store: a clause translator and a
    constraint translator obtained one after the other from the same
    strategy are of different namespaces. *)
Lemma C8_mixed_modes :
  ¬ ∃ m : Mode,
      Forall
        (λ t, (invoke_all strategy two_calls store).2 !! t ≫= mode_of
                = Some m)
        (invoke_all strategy two_calls store).1.
Proof.
  intros [m H].
  rewrite two_calls_pointers in H.
  apply Forall_cons in H as [H5 H]. apply Forall_cons in H as [H6 _].
  vm_compute in H5. vm_compute in H6. congruence.
Qed.

(** C2 on the sample store, lowering [x = y]. *)
Lemma C2_constraint_lowering_same_witness :
  (store !! context = Some the_context ∧
   store !! symbolTable = Some the_symbolTable ∧
   store !! index = Some the_index) ∧
  fst <$> translateConstraint _ _ lower
    (provenance.createConstraintTranslator
       strategy context symbolTable index store).1 ("x", "y")%string
    (provenance.createConstraintTranslator
       strategy context symbolTable index store).2
  = fst <$> translateConstraint _ _ lower
    (seminaive.createConstraintTranslator
       strategy context symbolTable index store).1 ("x", "y")%string
    (seminaive.createConstraintTranslator
       strategy context symbolTable index store).2.
Proof.
  split; [repeat split; reflexivity|].
  apply (C2_constraint_lowering_same lower
           strategy context symbolTable index store
           strategy context symbolTable index store
           ("x", "y")%string
           [("edge", 2); ("path", 2)]%string ["a"; "b"]%string
           [("x", (0, 0)); ("y", (0, 1))]%string); reflexivity.
Defined.

(** C5 on the sample store, for the value translator. *)
Lemma C5_translators_bound_to_index_witness :
  store !! index = Some the_index ∧
  result_index
    (provenance.createValueTranslator strategy context symbolTable index store)
  = Some the_index.
Proof.
  split; [reflexivity|].
  apply (C5_translators_bound_to_index strategy context symbolTable index
           store [("x", (0, 0)); ("y", (0, 1))]%string).
  reflexivity.
Defined.

(** C6 on the sample store: the symbol table survives a call. *)
Lemma C6_factory_frame_witness :
  store !! symbolTable = Some the_symbolTable ∧
  (invoke strategy (CreateClauseTranslator context symbolTable) store).2
    !! symbolTable = Some the_symbolTable.
Proof.
  split; [reflexivity|].
  apply (C6_factory_frame strategy
           (CreateClauseTranslator context symbolTable) store symbolTable
           the_symbolTable).
  reflexivity.
Defined.

(** C8 on the sample store: the strategy object survives two calls. *)
Lemma C8_mode_by_operation_witness :
  store !! strategy = Some (ObjTranslationStrategy Provenance) ∧
  (invoke_all strategy
     [CreateUnitTranslator; CreateValueTranslator context symbolTable index]
     store).2 !! strategy
  = Some (ObjTranslationStrategy Provenance).
Proof.
  split; [reflexivity|].
  apply (C8_mode_by_operation strategy
           [CreateUnitTranslator;
            CreateValueTranslator context symbolTable index] store).
  reflexivity.
Defined.

End OnSample.

(** ** References, lifetimes and sharing *)

Section ReferenceSafety.
Context {TranslatorContext SymbolTable ValueIndex : Type}.
Local Abbreviation obj := (Object TranslatorContext SymbolTable ValueIndex).
Local Abbreviation heap := (gmap loc obj).

Lemma store_ok_spec (h : heap) :
  store_ok h = true ↔ ∀ l o, h !! l = Some o → refs_ok h o = true.
Proof.
  unfold store_ok. rewrite forallb_forall. split.
  - intros H l o Hl. apply (H (l, o)).
    apply list_elem_of_In, elem_of_map_to_list, Hl.
  - intros H [l o] Hin. apply list_elem_of_In, elem_of_map_to_list in Hin.
    exact (H l o Hin).
Qed.

Lemma is_TranslatorContext_mono (h h' : heap) (l : loc) :
  h ⊆ h' → is_TranslatorContext h l = true → is_TranslatorContext h' l = true.
Proof.
  unfold is_TranslatorContext. intros Hsub.
  destruct (h !! l) as [o|] eqn:Hl; [|done].
  by rewrite (lookup_weaken _ _ _ _ Hl Hsub).
Qed.

Lemma is_SymbolTable_mono (h h' : heap) (l : loc) :
  h ⊆ h' → is_SymbolTable h l = true → is_SymbolTable h' l = true.
Proof.
  unfold is_SymbolTable. intros Hsub.
  destruct (h !! l) as [o|] eqn:Hl; [|done].
  by rewrite (lookup_weaken _ _ _ _ Hl Hsub).
Qed.

Lemma is_ValueIndex_mono (h h' : heap) (l : loc) :
  h ⊆ h' → is_ValueIndex h l = true → is_ValueIndex h' l = true.
Proof.
  unfold is_ValueIndex. intros Hsub.
  destruct (h !! l) as [o|] eqn:Hl; [|done].
  by rewrite (lookup_weaken _ _ _ _ Hl Hsub).
Qed.

Lemma refs_ok_mono (h h' : heap) (o : obj) :
  h ⊆ h' → refs_ok h o = true → refs_ok h' o = true.
Proof.
  intros Hsub. destruct o; cbn; try done;
    rewrite !andb_true_iff; intros H; destruct_and?; repeat split;
    eauto using is_TranslatorContext_mono, is_SymbolTable_mono,
      is_ValueIndex_mono.
Qed.

Lemma args_ok_mono (h h' : heap) (c : Call) :
  h ⊆ h' → args_ok h c = true → args_ok h' c = true.
Proof.
  intros Hsub. destruct c; cbn; try done;
    rewrite !andb_true_iff; intros H; destruct_and?; repeat split;
    eauto using is_TranslatorContext_mono, is_SymbolTable_mono,
      is_ValueIndex_mono.
Qed.

Lemma store_ok_mk (o : obj) (h : heap) :
  store_ok h = true → refs_ok h o = true → store_ok (mk o h).2 = true.
Proof.
  rewrite !store_ok_spec. intros Hh Ho l o' Hl.
  apply (refs_ok_mono h); [apply mk_subseteq|].
  destruct (decide (l = (mk o h).1)) as [->|Hne].
  - rewrite mk_lookup in Hl. by simplify_eq.
  - rewrite mk_other in Hl by done. eauto.
Qed.

(** The object a call builds holds exactly the references it was passed. *)
Lemma invoke_refs (this : loc) (c : Call) :
  ∃ o : obj, (∀ h, invoke this c h = mk o h) ∧ (∀ h, refs_ok h o = args_ok h c).
Proof. destruct c; eexists; split; reflexivity. Qed.

Lemma invoke_all_live (this : loc) (cs : list Call) (h : heap) :
  Forall (λ t, is_Some ((invoke_all this cs h).2 !! t)) (invoke_all this cs h).1.
Proof.
  revert h. induction cs as [|c cs IH]; intros h; cbn; constructor;
    [|apply IH].
  destruct (@invoke_mk TranslatorContext SymbolTable ValueIndex this c)
    as (o & _ & Ho).
  rewrite Ho.
  erewrite lookup_weaken;
    [| apply (mk_lookup o h) | apply invoke_all_subseteq].
  eauto.
Qed.

Lemma store_ok_delete (this : loc) (m : Mode) (h : heap) :
  h !! this = Some (ObjTranslationStrategy m) →
  store_ok h = true → store_ok (delete this h) = true.
Proof.
  intros Hthis. rewrite !store_ok_spec. intros Hh l o Hl.
  apply lookup_delete_Some in Hl as [Hne Hl].
  specialize (Hh l o Hl).
  assert (Hc : ∀ x, is_TranslatorContext (delete this h) x
                    = is_TranslatorContext h x).
  { intros x. unfold is_TranslatorContext.
    destruct (decide (this = x)) as [<-|Hx];
      [by rewrite lookup_delete_eq, Hthis | by rewrite lookup_delete_ne]. }
  assert (Hs : ∀ x, is_SymbolTable (delete this h) x = is_SymbolTable h x).
  { intros x. unfold is_SymbolTable.
    destruct (decide (this = x)) as [<-|Hx];
      [by rewrite lookup_delete_eq, Hthis | by rewrite lookup_delete_ne]. }
  assert (Hi : ∀ x, is_ValueIndex (delete this h) x = is_ValueIndex h x).
  { intros x. unfold is_ValueIndex.
    destruct (decide (this = x)) as [<-|Hx];
      [by rewrite lookup_delete_eq, Hthis | by rewrite lookup_delete_ne]. }
  destruct o; cbn in *; rewrite ?Hc, ?Hs, ?Hi; done.
Qed.

Lemma invoke_all_store_ok (this : loc) (cs : list Call) (h : heap) :
  store_ok h = true → Forall (λ c, args_ok h c = true) cs →
  store_ok (invoke_all this cs h).2 = true.
Proof.
  revert h. induction cs as [|c cs IH]; intros h Hstore Hargs; cbn; [done|].
  apply Forall_cons in Hargs as [Hc Hcs].
  destruct (invoke_refs this c) as (o & Ho & Hrefs). rewrite Ho.
  apply IH.
  - apply store_ok_mk; [done|]. by rewrite Hrefs.
  - eapply Forall_impl; [exact Hcs|]. cbn. intros c'.
    apply args_ok_mono, mk_subseteq.
Qed.

(** X1: the factory keeps the store free of dangling and ill-typed
    references.  From a store in which every reference held by an object
    designates a live object of the right class, any sequence of create
    calls whose arguments are such references yields a store with the same
    property, in which the arguments are still valid for further calls. *)
Theorem factory_keeps_references_valid
  (this : loc) (cs : list Call) (h : heap)
  (Hstore : store_ok h = true)
  (Hargs : Forall (λ c, args_ok h c = true) cs) :
  store_ok (invoke_all this cs h).2 = true ∧
  Forall (λ c, args_ok (invoke_all this cs h).2 c = true) cs.
Proof.
  split; [by apply invoke_all_store_ok|].
  eapply Forall_impl; [exact Hargs|]. cbn. intros c'.
  apply args_ok_mono, invoke_all_subseteq.
Qed.

(** X2: translators outlive the strategy that built them.  Destroying the
    strategy object after any sequence of create calls removes that object
    only: the strategy's address is released, every other address holds what
    it held, so every translator returned is still live and unchanged, and
    no object of the store is left with a dangling reference. *)
Theorem translators_outlive_strategy
  (this : loc) (m : Mode) (cs : list Call) (h : heap)
  (Hthis : h !! this = Some (ObjTranslationStrategy m))
  (Hstore : store_ok h = true)
  (Hargs : Forall (λ c, args_ok h c = true) cs) :
  let r := invoke_all this cs h in
  let h' := provenance.TranslationStrategy_dtor this r.2 in
  (h' !! this = None ∧
   dom h' = dom r.2 ∖ {[this]} ∧
   ∀ l, l ≠ this → h' !! l = r.2 !! l) ∧
  store_ok h' = true ∧
  Forall (λ t, is_Some (h' !! t) ∧ h' !! t = r.2 !! t) r.1.
Proof.
  intros r h'. subst r h'. unfold provenance.TranslationStrategy_dtor.
  split; [split; [apply lookup_delete_eq|split]|].
  { apply dom_delete_L. }
  { intros l Hl. by apply lookup_delete_ne. }
  split.
  - apply (store_ok_delete this m).
    + eapply lookup_weaken; [exact Hthis | apply invoke_all_subseteq].
    + by apply invoke_all_store_ok.
  - pose proof (invoke_all_fresh this cs h) as Hf.
    pose proof (invoke_all_live this cs h) as Hl.
    rewrite Forall_forall in Hf, Hl. apply Forall_forall. intros t Ht.
    assert (this ≠ t) as Hne.
    { intros <-. destruct (Hf _ Ht) as [_ Hnone]. congruence. }
    rewrite lookup_delete_ne by done. split; [by apply Hl | done].
Qed.

End ReferenceSafety.

Section Sharing.
Context {TranslatorContext SymbolTable ValueIndex : Type}.
Local Abbreviation obj := (Object TranslatorContext SymbolTable ValueIndex).
Local Abbreviation heap := (gmap loc obj).

Lemma is_SymbolTable_live (h : heap) (l : loc) :
  is_SymbolTable h l = true → is_Some (h !! l).
Proof. unfold is_SymbolTable. destruct (h !! l); [eauto | done]. Qed.

(** What a translator reads as its symbol table after the table has been
    rewritten in place. *)
Lemma read_symbolTable_after_write
  (h : heap) (t symbolTable : loc) (o : obj) (s : SymbolTable) :
  h !! t = Some o → symbolTable_of o = Some symbolTable → t ≠ symbolTable →
  read_symbolTable (<[symbolTable := ObjSymbolTable s]> h) t
    = Some (ObjSymbolTable s).
Proof.
  intros Ht Ho Hne. unfold read_symbolTable.
  rewrite lookup_insert_ne by done. rewrite Ht. cbn. rewrite Ho.
  apply lookup_insert_eq.
Qed.

(** X3: the symbol table is shared by reference, not copied.  When a clause
    translator, a constraint translator and a value translator are obtained
    with the same symbol table, a later update of that table in place is
    what each of the three reads. *)
Theorem symbolTable_shared_by_reference
  (this context symbolTable index : loc) (h : heap) (s : SymbolTable)
  (Hsym : is_SymbolTable h symbolTable = true) :
  let r1 := provenance.createClauseTranslator this context symbolTable h in
  let r2 :=
    provenance.createConstraintTranslator
      this context symbolTable index r1.2 in
  let r3 :=
    provenance.createValueTranslator this context symbolTable index r2.2 in
  let h' := <[symbolTable := ObjSymbolTable s]> r3.2 in
  read_symbolTable h' r1.1 = Some (ObjSymbolTable s) ∧
  read_symbolTable h' r2.1 = Some (ObjSymbolTable s) ∧
  read_symbolTable h' r3.1 = Some (ObjSymbolTable s).
Proof.
  intros r1 r2 r3 h'. subst h'.
  apply is_SymbolTable_live in Hsym as [x Hx].
  assert (H1 : r1.2 !! r1.1
               = Some (ObjClauseTranslator Provenance context symbolTable))
    by apply mk_lookup.
  assert (H2 : r2.2 !! r2.1
               = Some (ObjConstraintTranslator Plain context symbolTable index))
    by apply mk_lookup.
  assert (H3 : r3.2 !! r3.1
               = Some (ObjValueTranslator Plain context symbolTable index))
    by apply mk_lookup.
  assert (S1 : h ⊆ r1.2) by apply mk_subseteq.
  assert (S2 : r1.2 ⊆ r2.2) by apply mk_subseteq.
  assert (S3 : r2.2 ⊆ r3.2) by apply mk_subseteq.
  assert (F1 : h !! r1.1 = None) by apply mk_fresh.
  assert (F2 : r1.2 !! r2.1 = None) by apply mk_fresh.
  assert (F3 : r2.2 !! r3.1 = None) by apply mk_fresh.
  pose proof (lookup_weaken _ _ _ _ Hx S1) as Hx1.
  pose proof (lookup_weaken _ _ _ _ Hx1 S2) as Hx2.
  pose proof (lookup_weaken _ _ _ _ H1 S2) as H12.
  pose proof (lookup_weaken _ _ _ _ H12 S3) as H13.
  pose proof (lookup_weaken _ _ _ _ H2 S3) as H23.
  repeat split;
    (eapply read_symbolTable_after_write; [eassumption | reflexivity |]);
    intros E; congruence.
Qed.

(** X4: a translator keeps all the arguments of the call that built it, and
    the four operations build four different classes: if two calls, on
    whatever strategy instances and stores, build equal objects, they are the
    same operation with the same arguments. *)
Theorem built_object_determines_call
  (this1 this2 : loc) (c1 c2 : Call) (h1 h2 : heap)
  (Heq : (invoke this1 c1 h1).2 !! (invoke this1 c1 h1).1
         = (invoke this2 c2 h2).2 !! (invoke this2 c2 h2).1) :
  c1 = c2.
Proof.
  destruct c1, c2; cbn in Heq;
    unfold provenance.createUnitTranslator, provenance.createClauseTranslator,
      provenance.createConstraintTranslator, provenance.createValueTranslator
      in Heq;
    rewrite !mk_lookup in Heq; congruence.
Qed.

Lemma mk_size (o : obj) (h : heap) : size (mk o h).2 = S (size h).
Proof.
  pose proof (mk_fresh o h) as Hf. unfold mk in *; cbn in *.
  by apply map_size_insert_None.
Qed.

(** X5: a sequence of create calls allocates one object per call and
    releases none: it returns as many pointers as there were calls, the
    store grows by exactly that many objects, and the addresses in use
    afterwards are the ones in use before together with the pointers
    returned. *)
Theorem one_allocation_per_call (this : loc) (cs : list Call) (h : heap) :
  length (invoke_all this cs h).1 = length cs ∧
  size (invoke_all this cs h).2 = size h + length cs ∧
  dom (invoke_all this cs h).2 = list_to_set (invoke_all this cs h).1 ∪ dom h.
Proof.
  revert h. induction cs as [|c cs IH]; intros h; cbn.
  { split; [done|]. split; [lia | by rewrite (left_id_L ∅ (∪))]. }
  destruct (@invoke_mk TranslatorContext SymbolTable ValueIndex this c)
    as (o & _ & Ho).
  rewrite !Ho. destruct (IH (mk o h).2) as (Hlen & Hsize & Hdom).
  split; [by rewrite Hlen|]. split.
  - rewrite Hsize, mk_size. lia.
  - rewrite Hdom, mk_dom.
    by rewrite (assoc_L (∪)), (comm_L (∪) _ {[(mk o h).1]}).
Qed.

Lemma mk_translator_kinds (o : obj) (h : heap) (l : loc) :
  is_Some (mode_of o) ∨ o = ObjTranslationStrategy Provenance →
  is_TranslatorContext (mk o h).2 l = is_TranslatorContext h l ∧
  is_SymbolTable (mk o h).2 l = is_SymbolTable h l ∧
  is_ValueIndex (mk o h).2 l = is_ValueIndex h l.
Proof.
  intros Ho. unfold is_TranslatorContext, is_SymbolTable, is_ValueIndex.
  destruct (decide (l = (mk o h).1)) as [->|Hne].
  - rewrite mk_lookup, mk_fresh.
    destruct Ho as [[m Hm]| ->]; [|done]. by destruct o.
  - by rewrite mk_other.
Qed.

(** X6: the factory does not validate its arguments.  On a store without
    dangling references a create call always returns a translator, and the
    resulting store is free of dangling or ill-typed references exactly when
    the arguments of the call designated live objects of the declared
    classes. *)
Theorem create_call_validity (this : loc) (c : Call) (h : heap)
  (Hstore : store_ok h = true) :
  is_Some ((invoke this c h).2 !! (invoke this c h).1 ≫= mode_of) ∧
  store_ok (invoke this c h).2 = args_ok h c.
Proof.
  destruct (@invoke_refs TranslatorContext SymbolTable ValueIndex this c)
    as (o & Ho & Hrefs).
  destruct (@invoke_mk TranslatorContext SymbolTable ValueIndex this c)
    as (o' & Hm & Ho').
  assert (o' = o) as ->.
  { pose proof (mk_lookup o h) as E. rewrite <- Ho, Ho', mk_lookup in E.
    by simplify_eq. }
  rewrite Ho, mk_lookup. cbn. rewrite Hm. split; [eauto|].
  assert (Hsame : refs_ok (mk o h).2 o = refs_ok h o).
  { assert (K := λ l, mk_translator_kinds o h l (or_introl (ex_intro _ _ Hm))).
    destruct o; cbn; try done;
      repeat (rewrite ?(proj1 (K _)), ?(proj1 (proj2 (K _))),
                ?(proj2 (proj2 (K _)))); done. }
  destruct (args_ok h c) eqn:Hargs.
  - apply store_ok_mk; [done|]. by rewrite Hrefs.
  - apply not_true_is_false. intros Hok.
    rewrite store_ok_spec in Hok.
    specialize (Hok _ _ (mk_lookup o h)).
    rewrite Hsame, Hrefs in Hok. congruence.
Qed.

End Sharing.

(** ** References and lifetimes on the sample store *)

Section ReferencesOnSample.
Import Sample.

(** Passing the value index where the context is expected leaves an
    ill-typed reference behind; the call itself goes through. *)
Example createClauseTranslator_wrong_reference :
  store_ok
    (provenance.createClauseTranslator strategy index symbolTable store).2
  = false.
Proof. vm_compute. reflexivity. Qed.

(** X1 on the sample store: a clause, then a constraint translator. *)
Lemma factory_keeps_references_valid_witness :
  (store_ok store = true ∧ Forall (λ c, args_ok store c = true) two_calls) ∧
  store_ok (invoke_all strategy two_calls store).2 = true.
Proof.
  assert (Hargs : Forall (λ c, args_ok store c = true) two_calls)
    by (repeat constructor).
  split; [split; [reflexivity | exact Hargs]|].
  apply (factory_keeps_references_valid strategy two_calls store);
    [reflexivity | exact Hargs].
Defined.

(** X2 on the sample store: the strategy is gone, the store is sound. *)
Lemma translators_outlive_strategy_witness :
  (store !! strategy = Some (ObjTranslationStrategy Provenance) ∧
   store_ok store = true ∧
   Forall (λ c, args_ok store c = true) two_calls) ∧
  store_ok
    (provenance.TranslationStrategy_dtor strategy
       (invoke_all strategy two_calls store).2) = true.
Proof.
  assert (Hargs : Forall (λ c, args_ok store c = true) two_calls)
    by (repeat constructor).
  split; [split; [reflexivity | split; [reflexivity | exact Hargs]]|].
  apply (translators_outlive_strategy strategy Provenance two_calls store);
    [reflexivity | reflexivity | exact Hargs].
Defined.

(** X3 on the sample store: interning "c" is seen by the clause
    translator. *)
Lemma symbolTable_shared_by_reference_witness :
  is_SymbolTable store symbolTable = true ∧
  read_symbolTable
    (<[symbolTable := ObjSymbolTable ["a"; "b"; "c"]%string]>
       (provenance.createValueTranslator strategy context symbolTable index
          (provenance.createConstraintTranslator
             strategy context symbolTable index
             (provenance.createClauseTranslator
                strategy context symbolTable store).2).2).2)
    (provenance.createClauseTranslator strategy context symbolTable store).1
  = Some (ObjSymbolTable ["a"; "b"; "c"]%string).
Proof.
  split; [reflexivity|].
  apply (symbolTable_shared_by_reference strategy context symbolTable index
           store ["a"; "b"; "c"]%string).
  reflexivity.
Defined.

(** X4 on the sample store: the same call from two stores. *)
Lemma built_object_determines_call_witness :
  (invoke strategy (CreateValueTranslator context symbolTable index) store).2
    !! (invoke strategy (CreateValueTranslator context symbolTable index)
          store).1
  = (invoke strategy (CreateValueTranslator context symbolTable index)
       (∅ : gmap loc (Object Ctx Sym Idx))).2
    !! (invoke strategy (CreateValueTranslator context symbolTable index)
          (∅ : gmap loc (Object Ctx Sym Idx))).1 ∧
  CreateValueTranslator context symbolTable index
  = CreateValueTranslator context symbolTable index.
Proof.
  split; [reflexivity|].
  apply (built_object_determines_call strategy strategy
           (CreateValueTranslator context symbolTable index)
           (CreateValueTranslator context symbolTable index)
           store (∅ : gmap loc (Object Ctx Sym Idx))).
  reflexivity.
Defined.

(** X6 on the sample store: well-typed arguments, sound store. *)
Lemma create_call_validity_witness :
  store_ok store = true ∧
  store_ok
    (invoke strategy (CreateClauseTranslator context symbolTable) store).2
  = args_ok store (CreateClauseTranslator context symbolTable).
Proof.
  split; [reflexivity|].
  apply (create_call_validity strategy
           (CreateClauseTranslator context symbolTable) store).
  reflexivity.
Defined.

End ReferencesOnSample.
